(** * Smart reader: URL classification, extraction pipeline, reference mining

    A shallow embedding of [utils/smart_reader.py].  Python [str] values are
    sequences of Unicode code points; calls that leave the program (network,
    browser, trafilatura, PyMuPDF) are oracles of a [World]; the parts of the
    interpreter's Unicode database and URL validation that the program only
    consults on non-ASCII or bracketed input are fields of a [Platform]. *)

From Stdlib Require Import String Ascii DecimalString.
From Stdlib Require Import List NArith Arith Bool Lia.
Import ListNotations.

Set Implicit Arguments.

(** ** Python strings *)

Definition char := N.
Definition str := list char.
Bind Scope N_scope with char.

(** Decoder used only to write literals: the bytes of a Rocq string are read
    as UTF-8. *)
Fixpoint utf8 (bs : list N) : str :=
  match bs with
  | [] => []
  | b :: t =>
      if (b <? 128)%N then b :: utf8 t
      else if (b <? 224)%N then
        match t with
        | b1 :: t1 => ((b - 192) * 64 + (b1 - 128))%N :: utf8 t1
        | _ => []
        end
      else if (b <? 240)%N then
        match t with
        | b1 :: b2 :: t2 =>
            ((b - 224) * 4096 + (b1 - 128) * 64 + (b2 - 128))%N :: utf8 t2
        | _ => []
        end
      else
        match t with
        | b1 :: b2 :: b3 :: t3 =>
            ((b - 240) * 262144 + (b1 - 128) * 4096 + (b2 - 128) * 64
             + (b3 - 128))%N :: utf8 t3
        | _ => []
        end
  end.

Definition u (s : string) : str :=
  utf8 (map N_of_ascii (list_ascii_of_string s)).

Definition chr (a : ascii) : char := N_of_ascii a.

Definition str_eqb (a b : str) : bool :=
  if list_eq_dec N.eq_dec a b then true else false.

(** [s.startswith(p)] *)
Fixpoint startswith (p s : str) : bool :=
  match p, s with
  | [], _ => true
  | a :: p', b :: s' => (a =? b)%N && startswith p' s'
  | _ :: _, [] => false
  end.

(** [s.endswith(p)] *)
Definition endswith (p s : str) : bool :=
  (length p <=? length s) && str_eqb (skipn (length s - length p) s) p.

(** [p in s] *)
Fixpoint contains (p s : str) : bool :=
  startswith p s ||
  match s with
  | [] => false
  | _ :: s' => contains p s'
  end.

(** [c in s] for a one-character [c] *)
Definition has_char (c : char) (s : str) : bool :=
  existsb (N.eqb c) s.

(** [s.find(c, start)]; [None] stands for -1. *)
Fixpoint find_from (c : char) (s : str) (start : nat) : option nat :=
  match start, s with
  | S k, _ :: s' => option_map S (find_from c s' k)
  | S _, [] => None
  | O, [] => None
  | O, b :: s' =>
      if (b =? c)%N then Some O else option_map S (find_from c s' O)
  end.

Definition find (c : char) (s : str) : option nat := find_from c s 0.

(** [s.rfind(c)] *)
Fixpoint rfind (c : char) (s : str) : option nat :=
  match s with
  | [] => None
  | b :: s' =>
      match rfind c s' with
      | Some i => Some (S i)
      | None => if (b =? c)%N then Some O else None
      end
  end.

(** [s.replace(c, "")] for a one-character [c] *)
Definition remove_char (c : char) (s : str) : str :=
  filter (fun b => negb (b =? c)%N) s.

(** [s.lstrip(chars)] with the set of characters given as a predicate *)
Fixpoint lstrip_by (p : char -> bool) (s : str) : str :=
  match s with
  | [] => []
  | c :: s' => if p c then lstrip_by p s' else s
  end.

Definition rstrip_by (p : char -> bool) (s : str) : str :=
  rev (lstrip_by p (rev s)).

(** [sep.join(parts)] *)
Fixpoint join (sep : str) (parts : list str) : str :=
  match parts with
  | [] => []
  | [x] => x
  | x :: rest => x ++ sep ++ join sep rest
  end.

(** [s.split(c, 1)] when [c] occurs in [s]: the text before and after the
    first occurrence. *)
Fixpoint split1 (c : char) (s : str) : str * str :=
  match s with
  | [] => ([], [])
  | b :: s' =>
      if (b =? c)%N then ([], s')
      else let '(x, y) := split1 c s' in (b :: x, y)
  end.

(** Decimal rendering of a non-negative [int], as an f-string does it. *)
Definition str_of_nat (n : nat) : str :=
  u (NilZero.string_of_uint (Nat.to_uint n)).

(** ** Character classes *)

Definition in_range (lo hi c : char) : bool := ((lo <=? c) && (c <=? hi))%N.

Definition is_ascii (c : char) : bool := (c <? 128)%N.

Definition ascii_digit (c : char) : bool := in_range 48 57 c.

Definition ascii_upper (c : char) : bool := in_range 65 90 c.

Definition ascii_alpha (c : char) : bool :=
  in_range 65 90 c || in_range 97 122 c.

Definition ascii_lower (c : char) : char :=
  if ascii_upper c then (c + 32)%N else c.

(** [Py_UNICODE_ISSPACE]: what [str.strip()], [str.isspace()] and the
    pattern class [\s] of a [str] pattern accept. *)
Definition is_space (c : char) : bool :=
  in_range 9 13 c || in_range 28 32 c || (c =? 133)%N || (c =? 160)%N
  || (c =? 5760)%N || in_range 8192 8202 c || (c =? 8232)%N || (c =? 8233)%N
  || (c =? 8239)%N || (c =? 8287)%N || (c =? 12288)%N.

(** [s.strip()] *)
Definition strip (s : str) : str := rstrip_by is_space (lstrip_by is_space s).

(** ** Exceptions *)

(** A raised exception: an instance of [Exception] or of one of its
    subclasses, or an instance of another subclass of [BaseException]
    ([asyncio.CancelledError], [KeyboardInterrupt], ...), each with its class
    name and its message. *)
Inductive exc : Type :=
| Exception (cls : string) (msg : str)
| BaseException (cls : string) (msg : str).

(** [str(e)] *)
Definition exc_str (e : exc) : str :=
  match e with
  | Exception _ m => m
  | BaseException _ m => m
  end.

Inductive result (A : Type) : Type :=
| Ok (a : A)
| Raise (e : exc).

Arguments Ok {A} a.
Arguments Raise {A} e.

Definition bind {A B} (r : result A) (k : A -> result B) : result B :=
  match r with
  | Ok a => k a
  | Raise e => Raise e
  end.

(** [try: body except Exception as e: handler(e)]: an exception that is
    not an [Exception] passes through. *)
Definition try_except {A} (body : result A) (handler : exc -> result A)
  : result A :=
  match body with
  | Ok a => Ok a
  | Raise (Exception cls msg) => handler (Exception cls msg)
  | Raise (BaseException cls msg) => Raise (BaseException cls msg)
  end.

Declare Scope py_scope.
Delimit Scope py_scope with py.
Notation "x <- c1 ;; c2" := (bind c1 (fun x => c2))
  (at level 61, c1 at next level, right associativity) : py_scope.
Notation "' pat <- c1 ;; c2" :=
  (bind c1 (fun x => match x with pat => c2 end))
  (at level 61, pat pattern, c1 at next level, right associativity) : py_scope.
Notation "c1 ;;; c2" := (bind c1 (fun _ => c2))
  (at level 61, right associativity) : py_scope.
Open Scope py_scope.

(** ** The interpreter's tables that are left open

    [uni_isdecimal] is [Py_UNICODE_ISDECIMAL] and [uni_isprintable] is
    [Py_UNICODE_ISPRINTABLE], both consulted for code points from 128 up;
    [uni_lower before c after] is the lower-cased form [str.lower()] gives the
    non-ASCII code point [c] between [before] and [after] (the context decides
    the final sigma); [uni_nfkc] is [unicodedata.normalize("NFKC", _)];
    [check_bracketed_netloc] is urllib's validation of a network location
    that holds both brackets, with the exception it raises if any. *)
Class Platform : Type := {
  uni_isdecimal : char -> bool;
  uni_isprintable : char -> bool;
  uni_lower : str -> char -> str -> str;
  uni_nfkc : str -> str;
  check_bracketed_netloc : str -> option exc
}.

(** ** Regular expressions

    The fragment of Python's [re] the program uses, with the backtracking
    search of the library: alternatives are tried in order, a repetition is
    greedy and gives characters back one at a time. *)

Inductive regex : Type :=
| Eps
| Chr (p : char -> bool)
| Cat (r1 r2 : regex)
| Rep (p : char -> bool) (lo : nat) (hi : option nat)
| Opt (r : regex)
| Grp (r : regex).

Declare Scope regex_scope.
Delimit Scope regex_scope with re.
Bind Scope regex_scope with regex.
Notation "a @@ b" := (Cat a b) (at level 60, right associativity) : regex_scope.

Definition at_most (hi : option nat) (n : nat) : bool :=
  match hi with
  | Some h => h <=? n
  | None => false
  end.

Section Matcher.
Variable R : Type.

(** [rep p lo hi n s k]: [n] characters of the class are already taken; [k]
    receives the characters taken from here on and the text left. *)
Fixpoint rep (p : char -> bool) (lo : nat) (hi : option nat) (n : nat)
  (s : str) (k : str -> str -> option R) : option R :=
  let stop := if lo <=? n then k [] s else None in
  if at_most hi n then stop
  else
    match s with
    | c :: s' =>
        if p c then
          match rep p lo hi (S n) s' (fun t rest => k (c :: t) rest) with
          | Some x => Some x
          | None => stop
          end
        else stop
    | [] => stop
    end.

(** [run r s caps k]: match [r] at the front of [s], then continue with [k]
    on the text matched, the text left and the groups closed so far. *)
Fixpoint run (r : regex) (s : str) (caps : list str)
  (k : str -> str -> list str -> option R) : option R :=
  match r with
  | Eps => k [] s caps
  | Chr p =>
      match s with
      | c :: s' => if p c then k [c] s' caps else None
      | [] => None
      end
  | Cat r1 r2 =>
      run r1 s caps
        (fun t1 s1 c1 => run r2 s1 c1 (fun t2 s2 c2 => k (t1 ++ t2) s2 c2))
  | Rep p lo hi => rep p lo hi 0 s (fun t rest => k t rest caps)
  | Opt r1 =>
      match run r1 s caps k with
      | Some x => Some x
      | None => k [] s caps
      end
  | Grp r1 => run r1 s caps (fun t rest c1 => k t rest (c1 ++ [t]))
  end.

End Matcher.

(** [re.match(r, s)]: the text matched, the text left and the groups. *)
Definition re_match (r : regex) (s : str) : option (str * str * list str) :=
  run r s [] (fun t rest caps => Some (t, rest, caps)).

(** [re.findall(r, s)], one list of groups per match.  [skip] counts the
    characters of the last match still to step over.  Every pattern of the
    program takes at least one character, so no match is empty. *)
Fixpoint findall_from (r : regex) (s : str) (skip : nat) : list (list str) :=
  match s with
  | [] => []
  | _ :: s' =>
      match skip with
      | S k => findall_from r s' k
      | O =>
          match re_match r s with
          | Some (t, _, caps) => caps :: findall_from r s' (length t - 1)
          | None => findall_from r s' 0
          end
      end
  end.

Definition findall (r : regex) (s : str) : list (list str) :=
  findall_from r s 0.

(** [re.sub(r, repl, s)] for a literal replacement *)
Fixpoint sub_from (r : regex) (repl : str) (s : str) (skip : nat) : str :=
  match s with
  | [] => []
  | c :: s' =>
      match skip with
      | S k => sub_from r repl s' k
      | O =>
          match re_match r s with
          | Some (t, _, _) => repl ++ sub_from r repl s' (length t - 1)
          | None => c :: sub_from r repl s' 0
          end
      end
  end.

Definition re_sub (r : regex) (repl : str) (s : str) : str :=
  sub_from r repl s 0.

(** The characters of a literal, one after the other *)
Definition lit (s : str) : regex :=
  fold_right (fun c r => Cat (Chr (N.eqb c)) r) Eps s.

(** One letter under [re.IGNORECASE], for the letters of ["arXiv"]: both
    cases of the letter, and for [i] also the dotted capital and the
    dotless small i (U+0130, U+0131), which the library folds onto it. *)
Definition ichr (c : char) (x : char) : bool :=
  (ascii_lower x =? ascii_lower c)%N
  || ((ascii_lower c =? 105)%N && ((x =? 304)%N || (x =? 305)%N)).

Definition ilit (s : str) : regex :=
  fold_right (fun c r => Cat (Chr (ichr c)) r) Eps s.

Definition LF : char := 10.
Definition not_bracket (c : char) : bool := negb ((c =? 91)%N || (c =? 93)%N).
Definition not_space (c : char) : bool := negb (is_space c).

(** ** Functions that consult the platform *)

Section WithPlatform.
Context {P : Platform}.

(** The pattern class [\d] of a [str] pattern *)
Definition is_decimal (c : char) : bool :=
  if is_ascii c then ascii_digit c else uni_isdecimal c.

(** [s.lower()], [before] being the text already passed *)
Fixpoint lower_from (before s : str) : str :=
  match s with
  | [] => []
  | c :: s' =>
      (if is_ascii c then [ascii_lower c] else uni_lower before c s')
      ++ lower_from (before ++ [c]) s'
  end.

Definition lower (s : str) : str := lower_from [] s.

(** *** [repr] of a string and [str] of a list of strings *)

Definition hexdigit (n : N) : char :=
  if (n <? 10)%N then (48 + n)%N else (87 + n)%N.

Fixpoint hex (width : nat) (n : N) : str :=
  match width with
  | O => []
  | S w => hex w (n / 16) ++ [hexdigit (n mod 16)]
  end.

Definition SQUOTE : char := 39.
Definition DQUOTE : char := 34.
Definition BACKSLASH : char := 92.

Definition repr_quote (s : str) : char :=
  if has_char SQUOTE s && negb (has_char DQUOTE s) then DQUOTE else SQUOTE.

Definition repr_char (quote c : char) : str :=
  if (c =? quote)%N || (c =? BACKSLASH)%N then [BACKSLASH; c]
  else if (c =? 9)%N then u "\t"
  else if (c =? 10)%N then u "\n"
  else if (c =? 13)%N then u "\r"
  else if (c <? 32)%N || (c =? 127)%N then u "\x" ++ hex 2 c
  else if (c <? 127)%N then [c]
  else if uni_isprintable c then [c]
  else if (c <=? 255)%N then u "\x" ++ hex 2 c
  else if (c <=? 65535)%N then u "\u" ++ hex 4 c
  else u "\U" ++ hex 8 c.

Definition repr (s : str) : str :=
  let q := repr_quote s in
  [q] ++ flat_map (repr_char q) s ++ [q].

(** [str(l)] for a list of strings *)
Definition str_of_list (l : list str) : str :=
  u "[" ++ join (u ", ") (map repr l) ++ u "]".

(** *** The patterns of the program *)

(** [\[(\d+)\]\s*([^\[\]]{10,200})] *)
Definition bracket_re : regex :=
  (lit (u "[") @@ Grp (Rep is_decimal 1 None) @@ lit (u "]")
   @@ Rep is_space 0 None @@ Grp (Rep not_bracket 10 (Some 200)))%re.

(** [(10\.\d{4,}/[^\s]+)] *)
Definition doi_re : regex :=
  Grp (lit (u "10.") @@ Rep is_decimal 4 None @@ lit (u "/")
       @@ Rep not_space 1 None)%re.

(** [(arXiv:\d{4}\.\d{4,5}(?:v\d+)?)] with [re.IGNORECASE] *)
Definition arxiv_re : regex :=
  Grp (ilit (u "arXiv:") @@ Rep is_decimal 4 (Some 4) @@ lit (u ".")
       @@ Rep is_decimal 4 (Some 5)
       @@ Opt (ilit (u "v") @@ Rep is_decimal 1 None))%re.

(** [D:(\d{4})(\d{2})(\d{2})] *)
Definition date_re : regex :=
  (lit (u "D:") @@ Grp (Rep is_decimal 4 (Some 4))
   @@ Grp (Rep is_decimal 2 (Some 2)) @@ Grp (Rep is_decimal 2 (Some 2)))%re.

(** [\n{3,}] *)
Definition blank_lines_re : regex := Rep (N.eqb LF) 3 None.

(** *** Reference mining *)

Definition group (i : nat) (caps : list str) : str := nth i caps [].

(** The three loops of [_extract_references_from_text], each over the
    matches of one pattern and appending to the accumulator. *)
Definition add_bracket (references : list str) (m : list str) : list str :=
  references ++ [u "[" ++ group 0 m ++ u "] " ++ strip (group 1 m)].

Definition add_doi (references : list str) (m : list str) : list str :=
  let doi := group 0 m in
  if contains doi (str_of_list references) then references
  else references ++ [u "DOI: " ++ doi].

Definition add_arxiv (references : list str) (m : list str) : list str :=
  let ref := group 0 m in
  if contains ref (str_of_list references) then references
  else references ++ [ref].

Definition collect_references (text : str) : list str :=
  let references := [] in
  let references := fold_left add_bracket (findall bracket_re text) references in
  let references := fold_left add_doi (findall doi_re text) references in
  fold_left add_arxiv (findall arxiv_re text) references.

Definition _extract_references_from_text (text : str) : list str :=
  firstn 50 (collect_references text).

End WithPlatform.

(** ** [urllib.parse.urlparse]

    The path the classifier reads comes from the standard library's parser
    (CPython 3.11 with the 2023 security updates).  Its splitting is modelled
    in full; its two validators beyond the bracket-balance test go through
    the platform. *)

Record ParseResult : Type := {
  scheme : str;
  netloc : str;
  path : str;
  params : str;
  query : str;
  fragment : str
}.

Definition ValueError (msg : str) : exc := Exception "ValueError" msg.

(** [_WHATWG_C0_CONTROL_OR_SPACE] *)
Definition c0_control_or_space (c : char) : bool := (c <=? 32)%N.

(** [scheme_chars] *)
Definition scheme_char (c : char) : bool :=
  in_range 97 122 c || in_range 65 90 c || in_range 48 57 c
  || (c =? 43)%N || (c =? 45)%N || (c =? 46)%N.

Definition uses_params : list str :=
  map u [""; "ftp"; "hdl"; "prospero"; "http"; "imap"; "https"; "shttp";
         "rtsp"; "rtspu"; "sip"; "sips"; "mms"; "sftp"; "tel"]%string.

(** [str] truth value: non-empty *)
Definition truthy (s : str) : bool :=
  match s with
  | [] => false
  | _ => true
  end.

Definition _splitnetloc (url : str) (start : nat) : str * str :=
  let delim :=
    fold_left
      (fun delim c =>
         match find_from c url start with
         | Some wdelim => Nat.min delim wdelim
         | None => delim
         end)
      (u "/?#") (length url) in
  (firstn (delim - start) (skipn start url), skipn delim url).

Definition _splitparams (url : str) : str * str :=
  let cut (found : option nat) :=
    match found with
    | Some i => (firstn i url, skipn (S i) url)
    | None => (removelast url, url)
    end in
  if has_char 47 url then
    match find_from 59 url (match rfind 47 url with Some j => j | None => 0 end)
    with
    | None => (url, [])
    | found => cut found
    end
  else cut (find 59 url).

Section Urlparse.
Context {P : Platform}.

Definition _checknetloc (netloc : str) : result unit :=
  if negb (truthy netloc) || forallb is_ascii netloc then Ok tt
  else
    let n := remove_char 64 netloc in
    let n := remove_char 58 n in
    let n := remove_char 35 n in
    let n := remove_char 63 n in
    let netloc2 := uni_nfkc n in
    if str_eqb n netloc2 then Ok tt
    else if existsb (fun c => has_char c netloc2) (u "/?#@:") then
      Raise (ValueError (u "netloc '" ++ netloc ++ u "' contains invalid "
                         ++ u "characters under NFKC normalization"))
    else Ok tt.

(** [urlsplit(url)]: scheme, netloc, path, query, fragment *)
Definition urlsplit (url : str) : result (str * str * str * str * str) :=
  let url := lstrip_by c0_control_or_space url in
  let url := remove_char 10 (remove_char 13 (remove_char 9 url)) in
  let '(scheme, url) :=
    match find 58 url, url with
    | Some (S i'), c0 :: _ =>
        if is_ascii c0 && ascii_alpha c0
           && forallb scheme_char (firstn (S i') url)
        then (lower (firstn (S i') url), skipn (S (S i')) url)
        else ([], url)
    | _, _ => ([], url)
    end in
  '(netloc, url) <-
    (if str_eqb (firstn 2 url) (u "//") then
       let '(netloc, url) := _splitnetloc url 2 in
       if (has_char 91 netloc && negb (has_char 93 netloc))
          || (has_char 93 netloc && negb (has_char 91 netloc))
       then Raise (ValueError (u "Invalid IPv6 URL"))
       else if has_char 91 netloc && has_char 93 netloc then
         match check_bracketed_netloc netloc with
         | Some e => Raise e
         | None => Ok (netloc, url)
         end
       else Ok (netloc, url)
     else Ok ([], url)) ;;
  let '(url, fragment) :=
    if has_char 35 url then split1 35 url else (url, []) in
  let '(url, query) :=
    if has_char 63 url then split1 63 url else (url, []) in
  _checknetloc netloc ;;;
  Ok (scheme, netloc, url, query, fragment).

Definition urlparse (url : str) : result ParseResult :=
  '(scheme, netloc, url, query, fragment) <- urlsplit url ;;
  let '(url, params) :=
    if existsb (str_eqb scheme) uses_params && has_char 59 url
    then _splitparams url
    else (url, []) in
  Ok {| scheme := scheme; netloc := netloc; path := url; params := params;
        query := query; fragment := fragment |}.

(** ** The URL classifier *)

Definition pdf_patterns : list str :=
  map u ["/pdf/"; "/download/pdf"; "arxiv.org/pdf"; "export=download"]%string.

Definition _is_pdf_url (url : str) : result bool :=
  parsed <- urlparse url ;;
  let path := lower (path parsed) in
  if endswith (u ".pdf") path then Ok true
  else Ok (existsb (fun pattern => contains pattern (lower url)) pdf_patterns).

End Urlparse.

(** ** The result entity *)

Inductive ContentType : Type :=
| html
| pdf.

(** The string the field holds *)
Definition content_type_str (t : ContentType) : str :=
  match t with
  | html => u "html"
  | pdf => u "pdf"
  end.

Record ReadResult : Type := {
  content : str;
  title : option str;
  author : option str;
  publish_date : option str;
  url : option str;
  content_type : ContentType;
  references : list str;
  error : option str
}.

(** [ReadResult(content="", url=url, error=msg)]: every other field keeps
    the default of the dataclass. *)
Definition error_result (the_url msg : str) : ReadResult :=
  {| content := []; title := None; author := None; publish_date := None;
     url := Some the_url; content_type := html; references := [];
     error := Some msg |}.

(** Truth value of an optional string: set and non-empty *)
Definition truthy_opt (o : option str) : bool :=
  match o with
  | Some s => truthy s
  | None => false
  end.

(** [s or None] *)
Definition or_None (s : str) : option str :=
  if truthy s then Some s else None.

(** ** The world outside the program *)

(** What trafilatura's metadata pass returns *)
Record Metadata : Type := {
  md_title : option str;
  md_author : option str;
  md_date : option str
}.

(** An opened PyMuPDF document: its metadata dictionary and, per page, the
    outcome of [get_text("text")]. *)
Record Document : Type := {
  doc_metadata : list (str * str);
  doc_pages : list (result str)
}.

Definition bytes := list Byte.byte.

(** Every call that leaves the program answers with a value or raises.
    [_fetch_html_with_playwright] stands for the whole browser session of the
    source function of that name; [http_get_text] and [http_get_bytes] for the
    [aiohttp] request with [raise_for_status] and the body read;
    [extract_metadata] and [trafilatura_extract] for the two trafilatura
    passes; [pymupdf_open] for [pymupdf.open]. *)
Class World : Type := {
  _fetch_html_with_playwright : str -> result str;
  http_get_text : str -> result str;
  http_get_bytes : str -> result bytes;
  extract_metadata : str -> result (option Metadata);
  trafilatura_extract : str -> result (option str);
  pymupdf_open : bytes -> result Document
}.

(** [d.get(key, "")] *)
Fixpoint dict_get (d : list (str * str)) (key : str) : str :=
  match d with
  | [] => []
  | (k, v) :: d' => if str_eqb k key then v else dict_get d' key
  end.

Definition MSG_NO_CONTENT : str :=
  u "无法从该网页提取到有效正文，可能是纯图片网页或受严密保护。".

Section Pipeline.
Context {P : Platform} {W : World}.

(** *** PDF *)

(** The creation stamp of [parse_pdf] turned into a date *)
Definition parse_creation_date (creation_date : str) : option str :=
  if truthy creation_date then
    match re_match date_re creation_date with
    | Some (_, _, m) =>
        Some (group 0 m ++ u "-" ++ group 1 m ++ u "-" ++ group 2 m)
    | None => None
    end
  else None.

(** One page as it enters [full_text] *)
Definition page_entry (page_num : nat) (text : str) : str :=
  u "## 第 " ++ str_of_nat (page_num + 1) ++ u " 页" ++ [LF; LF] ++ text.

(** The loop of [parse_pdf] over the pages, from index [page_num] on *)
Fixpoint page_texts (pages : list (result str)) (page_num : nat)
  : result (list str) :=
  match pages with
  | [] => Ok []
  | page :: rest =>
      text <- page ;;
      full_text <- page_texts rest (S page_num) ;;
      Ok (if truthy (strip text) then page_entry page_num text :: full_text
          else full_text)
  end.

Definition parse_pdf (pdf_data : bytes)
  : result (str * str * option str * list str) :=
  doc <- pymupdf_open pdf_data ;;
  let metadata := doc_metadata doc in
  let title := dict_get metadata (u "title") in
  let author := dict_get metadata (u "author") in
  let creation_date := dict_get metadata (u "creationDate") in
  let publish_date := parse_creation_date creation_date in
  full_text <- page_texts (doc_pages doc) 0 ;;
  Ok (title, author, publish_date, full_text).

Definition _read_pdf (url : str) : result ReadResult :=
  try_except
    (pdf_bytes <- http_get_bytes url ;;
     '(title, author, publish_date, full_text) <- parse_pdf pdf_bytes ;;
     let content := join [LF; LF] full_text in
     let references := _extract_references_from_text content in
     let content := re_sub blank_lines_re [LF; LF] content in
     Ok {| content := content; title := or_None title;
           author := or_None author; publish_date := publish_date;
           url := Some url; content_type := pdf; references := references;
           error := None |})
    (fun e => Ok (error_result url (u "PDF 读取失败: " ++ exc_str e))).

(** *** HTML *)

Definition _read_html (url : str) (use_playwright : bool) : result ReadResult :=
  try_except
    (html_content <-
       (if use_playwright then _fetch_html_with_playwright url
        else http_get_text url) ;;
     metadata <- extract_metadata html_content ;;
     text_content <- trafilatura_extract html_content ;;
     if negb (truthy_opt text_content) then
       Ok (error_result url MSG_NO_CONTENT)
     else
       let text_content := match text_content with Some t => t | None => [] end in
       let references := _extract_references_from_text text_content in
       Ok {| content := text_content;
             title := match metadata with Some m => md_title m | None => None end;
             author := match metadata with Some m => md_author m | None => None end;
             publish_date := match metadata with Some m => md_date m | None => None end;
             url := Some url; content_type := html; references := references;
             error := None |})
    (fun e => Ok (error_result url (u "HTML 读取失败: " ++ exc_str e))).

(** *** Entry points *)

Definition smart_read (url : str) (use_playwright : bool) : result ReadResult :=
  is_pdf <- _is_pdf_url url ;;
  if is_pdf then _read_pdf url else _read_html url use_playwright.

(** [s.upper()] on the two ASCII values of the content type *)
Definition upper (s : str) : str :=
  map (fun c => if in_range 97 122 c then (c - 32)%N else c) s.

(** The formatter: what [smart_read_to_markdown] builds from the result of
    the read. *)
Definition output_parts (url : str) (result : ReadResult) : list str :=
  let output_parts :=
    [if truthy_opt (title result)
     then u "# " ++ match title result with Some t => t | None => [] end
     else u "# 未知标题"] in
  let meta_parts :=
    (if truthy_opt (author result)
     then [u "**作者**: " ++ match author result with Some a => a | None => [] end]
     else [])
    ++ (if truthy_opt (publish_date result)
        then [u "**发布日期**: "
              ++ match publish_date result with Some d => d | None => [] end]
        else [])
    ++ [u "**来源**: [" ++ url ++ u "](" ++ url ++ u ")"]
    ++ [u "**类型**: " ++ upper (content_type_str (content_type result))] in
  let output_parts := output_parts ++ [join [LF] meta_parts] in
  let output_parts := output_parts ++ [u "---"] in
  let output_parts := output_parts ++ [content result] in
  if match references result with [] => false | _ => true end then
    output_parts ++ [[LF] ++ u "---" ++ [LF] ++ u "## 参考文献" ++ [LF]]
    ++ map (fun ref => u "- " ++ ref) (references result)
  else output_parts.

Definition format_result (url : str) (result : ReadResult) : str :=
  if truthy_opt (error result) then
    u "# 读取失败" ++ [LF; LF] ++ u "**错误**: "
    ++ match error result with Some e => e | None => [] end
    ++ [LF] ++ u "**URL**: " ++ url
  else join [LF; LF] (output_parts url result).

Definition smart_read_to_markdown (url : str) (use_playwright : bool)
  : result str :=
  result <- smart_read url use_playwright ;;
  Ok (format_result url result).

End Pipeline.

(** ** Sample platform and worlds for the closed examples *)

(** A platform that knows nothing beyond ASCII.  The examples below only
    feed ASCII text to the functions that consult it. *)
Definition ascii_platform : Platform :=
  {| uni_isdecimal := fun _ => false;
     uni_isprintable := fun _ => true;
     uni_lower := fun _ c _ => [c];
     uni_nfkc := fun s => s;
     check_bracketed_netloc := fun _ => None |}.

Definition ConnectionError : exc :=
  Exception "ClientConnectorError" (u "Cannot connect to host").

(** No network: every fetch raises. *)
Definition offline : World :=
  {| _fetch_html_with_playwright := fun _ => Raise ConnectionError;
     http_get_text := fun _ => Raise ConnectionError;
     http_get_bytes := fun _ => Raise ConnectionError;
     extract_metadata := fun _ => Ok None;
     trafilatura_extract := fun _ => Ok None;
     pymupdf_open := fun _ => Raise (Exception "FileDataError" (u "no data")) |}.

(** A world that serves one HTML page, with the given outcome of the content
    pass, and one PDF with the given pages. *)
Definition serving (extracted : option str) (pages : list str) : World :=
  {| _fetch_html_with_playwright := fun _ => Ok (u "<html></html>");
     http_get_text := fun _ => Ok (u "<html></html>");
     http_get_bytes := fun _ => Ok [];
     extract_metadata := fun _ => Ok None;
     trafilatura_extract := fun _ => Ok extracted;
     pymupdf_open := fun _ =>
       Ok {| doc_metadata := [(u "creationDate", u "D:20230615120000")];
             doc_pages := map Ok pages |} |}.

(** The sample citation and DOI of the reference miner *)
Definition CITED : str := u "Smith et al., A Study of Things, 2020".
Definition CITATION : str := u "[12] " ++ CITED.
Definition DOI : str := u "10.1000/xyz123".

(** ** Specification-side notions *)

(** A stamp that starts with [D:] and eight decimal digits *)
Definition date_stamp_prefix {P : Platform} (s : str) : Prop :=
  exists y m d rest,
    s = u "D:" ++ y ++ m ++ d ++ rest
    /\ length y = 4 /\ length m = 2 /\ length d = 2
    /\ forallb is_decimal (y ++ m ++ d) = true.

(** A page has text when one of its characters is not white space. *)
Definition has_text (text : str) : bool := existsb not_space text.

(** The entries of the pages that have text, each under its 1-based number
    in the document; [first] is the 0-based index of the first page given. *)
Fixpoint visible_pages (first : nat) (texts : list str) : list str :=
  match texts with
  | [] => []
  | t :: rest =>
      (if has_text t
       then [u "## 第 " ++ str_of_nat (first + 1) ++ u " 页" ++ [LF; LF] ++ t]
       else [])
      ++ visible_pages (S first) rest
  end.

(** What a PDF read returns when the download, the opening and the text
    of every page succeed: [metadata] is the document's dictionary, [texts]
    are the texts of its pages. *)
Definition pdf_success {P : Platform} (the_url : str)
  (metadata : list (str * str)) (texts : list str) : ReadResult :=
  let joined := join [LF; LF] (visible_pages 0 texts) in
  {| content := re_sub blank_lines_re [LF; LF] joined;
     title := or_None (dict_get metadata (u "title"));
     author := or_None (dict_get metadata (u "author"));
     publish_date := parse_creation_date (dict_get metadata (u "creationDate"));
     url := Some the_url;
     content_type := pdf;
     references := _extract_references_from_text joined;
     error := None |}.

(** What an HTML read returns for a non-empty extracted text *)
Definition html_success {P : Platform} (the_url : str)
  (metadata : option Metadata) (text : str) : ReadResult :=
  {| content := text;
     title := match metadata with Some m => md_title m | None => None end;
     author := match metadata with Some m => md_author m | None => None end;
     publish_date := match metadata with Some m => md_date m | None => None end;
     url := Some the_url;
     content_type := html;
     references := _extract_references_from_text text;
     error := None |}.

(** The report of a successful read, piece by piece: the title line, the
    metadata block and the references section. *)
Definition title_line (r : ReadResult) : str :=
  match title r with
  | Some (c :: t) => u "# " ++ c :: t
  | _ => u "# 未知标题"
  end.

Definition metadata_block (the_url : str) (r : ReadResult) : str :=
  match author r with
  | Some (c :: t) => u "**作者**: " ++ c :: t ++ [LF]
  | _ => []
  end
  ++ match publish_date r with
     | Some (c :: t) => u "**发布日期**: " ++ c :: t ++ [LF]
     | _ => []
     end
  ++ u "**来源**: [" ++ the_url ++ u "](" ++ the_url ++ u ")" ++ [LF]
  ++ u "**类型**: "
  ++ match content_type r with
     | html => u "HTML"
     | pdf => u "PDF"
     end.

Definition references_section (r : ReadResult) : str :=
  match references r with
  | [] => []
  | refs =>
      [LF; LF] ++ [LF] ++ u "---" ++ [LF] ++ u "## 参考文献" ++ [LF]
      ++ flat_map (fun ref => [LF; LF] ++ u "- " ++ ref) refs
  end.

(** The sample result of the formatter: title [T], author [A], body [Body],
    no date and no references *)
Definition sample_result (ct : ContentType) : ReadResult :=
  {| content := u "Body"; title := Some (u "T"); author := Some (u "A");
     publish_date := None; url := None; content_type := ct;
     references := []; error := None |}.

(** Can [r] match the empty text; can a match of [r] start with [c]
    (an over-approximation) *)
Fixpoint nullable (r : regex) : bool :=
  match r with
  | Eps => true
  | Chr _ => false
  | Cat r1 r2 => nullable r1 && nullable r2
  | Rep _ lo _ => lo =? 0
  | Opt _ => true
  | Grp r1 => nullable r1
  end.

Fixpoint first (r : regex) (c : char) : bool :=
  match r with
  | Eps => false
  | Chr p => p c
  | Cat r1 r2 => first r1 c || (nullable r1 && first r2 c)
  | Rep p _ _ => p c
  | Opt r1 => first r1 c
  | Grp r1 => first r1 c
  end.

(** The number of leading characters of [s] in the class [p], at most
    [limit] *)
Fixpoint span (p : char -> bool) (limit : option nat) (s : str) : nat :=
  match limit, s with
  | Some O, _ => 0
  | _, [] => 0
  | _, c :: s' =>
      if p c then S (span p (option_map Nat.pred limit) s') else 0
  end.

(** The text stops the class [p]: it is empty or starts outside [p]. *)
Definition stops (p : char -> bool) (s : str) : bool :=
  match s with
  | [] => true
  | c :: _ => negb (p c)
  end.

(** The entry each kind of match contributes *)
Definition bracket_entry (m : list str) : str :=
  u "[" ++ group 0 m ++ u "] " ++ strip (group 1 m).

Definition doi_entry (m : list str) : str := u "DOI: " ++ group 0 m.

Definition arxiv_entry (m : list str) : str := group 0 m.

(** [l1] keeps some of the elements of [l2], in their order. *)
Inductive kept_from {A : Type} : list A -> list A -> Prop :=
| kept_nil : kept_from [] []
| kept_take x l1 l2 : kept_from l1 l2 -> kept_from (x :: l1) (x :: l2)
| kept_drop x l1 l2 : kept_from l1 l2 -> kept_from l1 (x :: l2).

(** A spelling of an ASCII text in some mix of upper and lower case *)
Definition case_variant (s lowered : str) : Prop :=
  map ascii_lower s = lowered /\ forallb is_ascii s = true.

(** ** Facts about the matcher *)

Section MatcherFacts.
Variable R : Type.

Lemma startswith_app (l s : str) : startswith l (l ++ s) = true.
Proof. induction l as [|a l IH]; cbn; [reflexivity|]. now rewrite N.eqb_refl. Qed.

Lemma startswith_split (l s : str) :
  startswith l s = true -> s = l ++ skipn (length l) s.
Proof.
  revert s. induction l as [|a l IH]; intros [|c s]; cbn; try easy.
  intros [Hc Hs]%andb_prop. apply N.eqb_eq in Hc. subst. f_equal. auto.
Qed.

Lemma run_lit (l s : str) (caps : list str)
  (k : str -> str -> list str -> option R) :
  run (lit l) s caps k
  = if startswith l s then k l (skipn (length l) s) caps else None.
Proof.
  revert s k. induction l as [|a l IH]; intros s k; cbn.
  - reflexivity.
  - destruct s as [|c s]; [reflexivity|].
    destruct (N.eqb_spec a c) as [->|Hne]; cbn; [|reflexivity].
    fold (lit l). rewrite IH. reflexivity.
Qed.

Lemma rep_exact (p : char -> bool) (lo j : nat) :
  forall (n : nat) (s : str) (k : str -> str -> option R),
    n + j = lo ->
    rep p lo (Some lo) n s k
    = if (j <=? length s) && forallb p (firstn j s)
      then k (firstn j s) (skipn j s) else None.
Proof.
  induction j as [|j IH]; intros n s k Hn.
  - replace n with lo by lia. destruct s; cbn; rewrite Nat.leb_refl; reflexivity.
  - assert (Hlt : (lo <=? n) = false) by (apply Nat.leb_gt; lia).
    destruct s as [|c s]; cbn; rewrite Hlt; [reflexivity|].
    destruct (p c); cbn; [|now rewrite andb_false_r].
    rewrite (IH (S n)) by lia.
    destruct ((j <=? length s) && forallb p (firstn j s));
      [destruct (k _ _)|]; reflexivity.
Qed.

Lemma rep_total (p : char -> bool) (lo : nat) (hi : option nat) :
  forall (s : str) (n : nat) (k : str -> str -> option R),
    (forall t rest, k t rest <> None) ->
    let j := span p (option_map (fun h => h - n) hi) s in
    rep p lo hi n s k
    = if lo <=? n + j then k (firstn j s) (skipn j s) else None.
Proof.
  induction s as [|c s IH]; intros n k Hk; cbn zeta.
  - assert (Hj : span p (option_map (fun h => h - n) hi) [] = 0)
      by (destruct hi as [h|]; cbn; [destruct (h - n)|]; reflexivity).
    rewrite Hj, Nat.add_0_r. cbn. destruct (at_most hi n); reflexivity.
  - cbn [rep]. destruct (at_most hi n) eqn:Hat.
    + destruct hi as [h|]; [|discriminate]. cbn in Hat.
      apply Nat.leb_le in Hat. cbn. replace (h - n) with 0 by lia.
      cbn. now rewrite Nat.add_0_r.
    + assert (Hspan : span p (option_map (fun h => h - n) hi) (c :: s)
                      = if p c then S (span p (option_map (fun h => h - S n) hi) s)
                        else 0).
      { destruct hi as [h|]; cbn in *.
        - apply Nat.leb_gt in Hat. destruct (h - n) eqn:E; [lia|].
          replace (h - S n) with n0 by lia. reflexivity.
        - reflexivity. }
      rewrite Hspan. destruct (p c).
      * rewrite (IH (S n)) by (intros; apply Hk). cbn zeta.
        replace (n + S (span p (option_map (fun h => h - S n) hi) s))
          with (S n + span p (option_map (fun h => h - S n) hi) s) by lia.
        destruct (S n + span p (option_map (fun h => h - S n) hi) s) eqn:E;
          [lia|]. rewrite <- E. clear E.
        destruct (lo <=? S n + _) eqn:Hlo.
        -- cbn. destruct (k _ _) eqn:Ek; [reflexivity|]. now apply Hk in Ek.
        -- assert ((lo <=? n) = false) as ->
             by (apply Nat.leb_gt; apply Nat.leb_gt in Hlo; lia).
           reflexivity.
      * rewrite Nat.add_0_r. reflexivity.
Qed.

Lemma run_reject (r : regex) :
  forall (c : char) (s : str) (caps : list str)
         (k : str -> str -> list str -> option R),
    first r c = false ->
    (nullable r = true -> forall caps', k [] (c :: s) caps' = None) ->
    run r (c :: s) caps k = None.
Proof.
  induction r as [|p|r1 IH1 r2 IH2|p lo hi|r1 IH1|r1 IH1];
    intros c s caps k Hf Hn; cbn in *.
  - now apply Hn.
  - now rewrite Hf.
  - apply orb_false_elim in Hf as [Hf1 Hf2].
    apply IH1; [assumption|]. intros Hn1 caps'. rewrite Hn1 in *. cbn in *.
    apply IH2; [assumption|]. intros Hn2 caps''. now apply Hn.
  - rewrite Hf. destruct (at_most hi 0); destruct lo; cbn; auto.
  - rewrite IH1; auto.
  - apply IH1; auto.
Qed.

End MatcherFacts.


(** ** Facts about strings *)

Lemma truthy_false_iff (s : str) : truthy s = false <-> s = [].
Proof. destruct s; cbn; split; congruence. Qed.

Lemma lstrip_by_nil_iff (p : char -> bool) (s : str) :
  lstrip_by p s = [] <-> forallb p s = true.
Proof.
  induction s as [|c s IH]; cbn; [tauto|].
  destruct (p c); cbn; [exact IH|]. split; discriminate.
Qed.

Lemma lstrip_by_all (p : char -> bool) (s : str) :
  forallb p (lstrip_by p s) = true -> forallb p s = true.
Proof.
  induction s as [|c s IH]; cbn; [trivial|].
  destruct (p c) eqn:E; cbn; [exact IH|]. now rewrite E.
Qed.

Lemma forallb_rev {A} (p : A -> bool) (l : list A) :
  forallb p (rev l) = forallb p l.
Proof.
  induction l as [|a l IH]; cbn; [reflexivity|].
  rewrite forallb_app, IH. cbn. rewrite andb_true_r. apply andb_comm.
Qed.

Lemma existsb_not_space (s : str) :
  existsb not_space s = negb (forallb is_space s).
Proof.
  induction s as [|c s IH]; cbn; [reflexivity|].
  rewrite IH. unfold not_space. now destruct (is_space c).
Qed.

(** [text.strip()] is true exactly when the text has a character that is
    not white space. *)
Lemma truthy_strip (s : str) : truthy (strip s) = has_text s.
Proof.
  unfold has_text. rewrite existsb_not_space.
  destruct (forallb is_space s) eqn:E; cbn.
  - apply truthy_false_iff. unfold strip, rstrip_by.
    apply lstrip_by_nil_iff in E. rewrite E. reflexivity.
  - destruct (truthy (strip s)) eqn:T; [reflexivity|].
    apply truthy_false_iff in T. unfold strip, rstrip_by in T.
    apply (f_equal (@rev char)) in T. rewrite rev_involutive in T. cbn in T.
    apply lstrip_by_nil_iff in T. rewrite forallb_rev in T.
    apply lstrip_by_all in T. congruence.
Qed.

Lemma join_nil_iff (sep : str) (parts : list str) :
  (forall x, In x parts -> x <> []) ->
  join sep parts = [] <-> parts = [].
Proof.
  intros Hne. destruct parts as [|x rest]; cbn; [tauto|].
  assert (x <> []) by (apply Hne; now left).
  split; [|discriminate]. destruct rest; destruct x; cbn; congruence.
Qed.

Lemma sub_from_nil_iff (r : regex) (repl s : str) :
  repl <> [] -> sub_from r repl s 0 = [] <-> s = [].
Proof.
  intros Hr. destruct s as [|c s]; cbn; [tauto|].
  split; [|discriminate].
  destruct (re_match r (c :: s)) as [[[t rest] caps]|]; [|discriminate].
  destruct repl; [congruence|discriminate].
Qed.

Lemma visible_pages_nil_iff (n : nat) (texts : list str) :
  visible_pages n texts = [] <-> existsb has_text texts = false.
Proof.
  revert n. induction texts as [|t texts IH]; intros n; cbn; [tauto|].
  destruct (has_text t); cbn; [split; discriminate|apply IH].
Qed.

Lemma visible_pages_nonempty (n : nat) (texts : list str) (x : str) :
  In x (visible_pages n texts) -> x <> [].
Proof.
  revert n. induction texts as [|t texts IH]; intros n; cbn; [tauto|].
  rewrite in_app_iff. intros [H|H]; [|now apply IH in H].
  destruct (has_text t); [|contradiction].
  destruct H as [<-|[]]. vm_compute. discriminate.
Qed.
(** ** Facts about the search *)

Lemma findall_from_reject (r : regex) (s : str) :
  nullable r = false ->
  forallb (fun c => negb (first r c)) s = true ->
  forall skip, findall_from r s skip = [].
Proof.
  intros Hn. induction s as [|c s IH]; intros Hs skip; [reflexivity|].
  cbn in Hs. apply andb_prop in Hs as [Hc Hs]. apply negb_true_iff in Hc.
  cbn. destruct skip; [|now apply IH].
  unfold re_match. rewrite run_reject; [now apply IH|assumption|congruence].
Qed.

Lemma findall_from_app_reject (r : regex) (pre s : str) :
  nullable r = false ->
  forallb (fun c => negb (first r c)) pre = true ->
  findall_from r (pre ++ s) 0 = findall_from r s 0.
Proof.
  intros Hn. induction pre as [|c pre IH]; intros Hs; [reflexivity|].
  cbn in Hs. apply andb_prop in Hs as [Hc Hs]. apply negb_true_iff in Hc.
  cbn. unfold re_match. rewrite run_reject; [now apply IH|assumption|congruence].
Qed.

Lemma rep_first (R : Type) (p : char -> bool) (lo : nat) (a : str) :
  forall (n : nat) (s : str) (k : str -> str -> option R) (x : R),
    forallb p a = true ->
    stops p s = true ->
    lo <= n + length a ->
    k a s = Some x ->
    rep p lo None n (a ++ s) k = Some x.
Proof.
  induction a as [|c a IH]; intros n s k x Ha Hs Hlo Hk; cbn in *.
  - assert (Hle : (lo <=? n) = true) by (apply Nat.leb_le; lia).
    destruct s as [|c s]; cbn in *; rewrite Hle; [assumption|].
    apply negb_true_iff in Hs. now rewrite Hs.
  - apply andb_prop in Ha as [Hc Ha]. rewrite Hc.
    rewrite (IH (S n) s (fun t rest => k (c :: t) rest) x); auto. lia.
Qed.

Lemma span_app_all (p : char -> bool) (a s : str) (limit : nat) :
  forallb p a = true -> length a <= limit ->
  span p (Some limit) (a ++ s)
  = length a + span p (Some (limit - length a)) s.
Proof.
  revert limit. induction a as [|c a IH]; intros limit Ha Hl; cbn in *.
  - now rewrite Nat.sub_0_r.
  - apply andb_prop in Ha as [Hc Ha]. destruct limit as [|limit]; [lia|].
    cbn. rewrite Hc, IH by (auto; lia). reflexivity.
Qed.

Lemma span_stops (p : char -> bool) (w post : str) (limit : option nat) :
  stops p post = true ->
  span p limit (w ++ post) <= length w.
Proof.
  revert limit. induction w as [|c w IH]; intros limit Hp; cbn.
  - destruct limit as [[|l]|]; destruct post as [|c post]; cbn in *; try lia;
      apply negb_true_iff in Hp; rewrite Hp; lia.
  - destruct limit as [[|l]|]; cbn; try lia;
      (destruct (p c); [|lia]); apply le_n_S, IH, Hp.
Qed.

Lemma lstrip_by_cons_false (p : char -> bool) (c : char) (s : str) :
  p c = false -> lstrip_by p (c :: s) = c :: s.
Proof. intros H. cbn. now rewrite H. Qed.

Lemma lstrip_by_app_all (p : char -> bool) (w s : str) :
  forallb p w = true -> lstrip_by p (w ++ s) = lstrip_by p s.
Proof.
  induction w as [|c w IH]; cbn; [reflexivity|].
  intros [Hc Hw]%andb_prop. now rewrite Hc, IH.
Qed.

Lemma rstrip_by_app_all (p : char -> bool) (a w : str) :
  forallb p w = true -> rstrip_by p (a ++ w) = rstrip_by p a.
Proof.
  intros Hw. unfold rstrip_by. rewrite rev_app_distr.
  rewrite lstrip_by_app_all; [reflexivity|]. now rewrite forallb_rev.
Qed.

Lemma forallb_firstn {A} (p : A -> bool) (n : nat) (l : list A) :
  forallb p l = true -> forallb p (firstn n l) = true.
Proof.
  revert n. induction l as [|a l IH]; intros [|n]; cbn; auto.
  intros [Ha Hl]%andb_prop. rewrite Ha. cbn. auto.
Qed.

Lemma firstn_len {A} (a b : list A) (n : nat) :
  length a = n -> firstn n (a ++ b) = a.
Proof.
  intros <-. induction a as [|x a IH]; cbn; [now destruct b|now rewrite IH].
Qed.

Lemma skipn_len {A} (a b : list A) (n : nat) :
  length a = n -> skipn n (a ++ b) = b.
Proof. intros <-. induction a as [|x a IH]; cbn; [reflexivity|exact IH]. Qed.

Lemma run_lit_app (R : Type) (l s : str) (caps : list str)
  (k : str -> str -> list str -> option R) :
  run (lit l) (l ++ s) caps k = k l s caps.
Proof.
  rewrite run_lit, startswith_app. f_equal. now apply skipn_len.
Qed.

Lemma reject_char (r : regex) (a : char) (s : str) :
  (forall c, first r c = (a =? c)%N) ->
  has_char a s = false ->
  forallb (fun c => negb (first r c)) s = true.
Proof.
  intros Hf. unfold has_char. induction s as [|c s IH]; cbn; [trivial|].
  intros [Hc Hs]%orb_false_elim. now rewrite Hf, Hc, IH.
Qed.

Lemma has_char_app (a : char) (s t : str) :
  has_char a (s ++ t) = has_char a s || has_char a t.
Proof. apply existsb_app. Qed.

Section MinerFacts.
Context {P : Platform}.

Lemma re_match_date (s : str) :
  re_match date_re s
  = if startswith (u "D:") s then
      let s1 := skipn 2 s in
      if (4 <=? length s1) && forallb is_decimal (firstn 4 s1) then
        let s2 := skipn 4 s1 in
        if (2 <=? length s2) && forallb is_decimal (firstn 2 s2) then
          let s3 := skipn 2 s2 in
          if (2 <=? length s3) && forallb is_decimal (firstn 2 s3) then
            Some (u "D:" ++ firstn 4 s1 ++ firstn 2 s2 ++ firstn 2 s3,
                  skipn 2 s3, [firstn 4 s1; firstn 2 s2; firstn 2 s3])
          else None
        else None
      else None
    else None.
Proof.
  unfold re_match, date_re. cbn [run]. rewrite run_lit.
  destruct (startswith (u "D:") s); [|reflexivity].
  change (length (u "D:")) with 2. cbn zeta.
  rewrite (@rep_exact _ is_decimal 4 4 0) by reflexivity.
  destruct (_ && _); [|reflexivity].
  rewrite (@rep_exact _ is_decimal 2 2 0) by reflexivity.
  destruct (_ && _); [|reflexivity].
  rewrite (@rep_exact _ is_decimal 2 2 0) by reflexivity.
  destruct (_ && _); reflexivity.
Qed.

Lemma parse_creation_date_none (s : str) :
  ~ date_stamp_prefix s -> parse_creation_date s = None.
Proof.
  intros Hno. unfold parse_creation_date.
  destruct (truthy s); [|reflexivity].
  rewrite re_match_date.
  destruct (startswith (u "D:") s) eqn:Hd; [|reflexivity]. cbn zeta.
  destruct ((4 <=? length (skipn 2 s))
            && forallb is_decimal (firstn 4 (skipn 2 s))) eqn:Hy;
    [|reflexivity].
  destruct ((2 <=? length (skipn 4 (skipn 2 s)))
            && forallb is_decimal (firstn 2 (skipn 4 (skipn 2 s)))) eqn:Hm;
    [|reflexivity].
  destruct ((2 <=? length (skipn 2 (skipn 4 (skipn 2 s))))
            && forallb is_decimal (firstn 2 (skipn 2 (skipn 4 (skipn 2 s)))))
    eqn:Hday; [|reflexivity].
  exfalso. apply Hno.
  apply andb_prop in Hy as [Hy1 Hy2]. apply andb_prop in Hm as [Hm1 Hm2].
  apply andb_prop in Hday as [Hd1 Hd2].
  apply Nat.leb_le in Hy1, Hm1, Hd1.
  exists (firstn 4 (skipn 2 s)), (firstn 2 (skipn 4 (skipn 2 s))),
    (firstn 2 (skipn 2 (skipn 4 (skipn 2 s)))),
    (skipn 2 (skipn 2 (skipn 4 (skipn 2 s)))).
  repeat split.
  - rewrite !firstn_skipn. now apply startswith_split in Hd.
  - rewrite length_firstn. lia.
  - rewrite length_firstn. lia.
  - rewrite length_firstn. lia.
  - rewrite !forallb_app, Hy2, Hm2, Hd2. reflexivity.
Qed.

Lemma parse_creation_date_some (y m d rest : str) :
  length y = 4 -> length m = 2 -> length d = 2 ->
  forallb is_decimal (y ++ m ++ d) = true ->
  parse_creation_date (u "D:" ++ y ++ m ++ d ++ rest)
  = Some (y ++ u "-" ++ m ++ u "-" ++ d).
Proof.
  intros Hy Hm Hd Hall. rewrite !forallb_app in Hall.
  apply andb_prop in Hall as [Hay Hall]. apply andb_prop in Hall as [Ham Had].
  unfold parse_creation_date.
  change (truthy (u "D:" ++ y ++ m ++ d ++ rest)) with true. cbv iota.
  rewrite re_match_date, startswith_app. cbn zeta.
  change (skipn 2 (u "D:" ++ y ++ m ++ d ++ rest)) with (y ++ m ++ d ++ rest).
  rewrite (firstn_len y _ Hy), (skipn_len y _ Hy).
  rewrite (firstn_len m _ Hm), (skipn_len m _ Hm).
  rewrite (firstn_len d _ Hd).
  rewrite !length_app, Hay, Ham, Had, Hy, Hm, Hd. reflexivity.
Qed.

Lemma dict_get_absent (d : list (str * str)) (key : str) :
  (forall k v, In (k, v) d -> k <> key) -> dict_get d key = [].
Proof.
  induction d as [|[k v] d IH]; intros Hk; cbn; [reflexivity|].
  unfold str_eqb. destruct (list_eq_dec N.eq_dec k key) as [->|_].
  - exfalso. now apply (Hk key v); [left|].
  - apply IH. intros k' v' Hin. apply (Hk k' v'). now right.
Qed.

End MinerFacts.

Section ReferenceFacts.
Context {P : Platform}.

Lemma fold_add_bracket (ms : list (list str)) (acc : list str) :
  fold_left add_bracket ms acc = acc ++ map bracket_entry ms.
Proof.
  revert acc. induction ms as [|m ms IH]; intros acc; cbn.
  - now rewrite app_nil_r.
  - rewrite IH. unfold add_bracket, bracket_entry. now rewrite <- app_assoc.
Qed.

Lemma fold_add_doi (ms : list (list str)) (acc : list str) :
  exists kept, kept_from kept ms
               /\ fold_left add_doi ms acc = acc ++ map doi_entry kept.
Proof.
  revert acc. induction ms as [|m ms IH]; intros acc; cbn.
  - exists []. split; [constructor|now rewrite app_nil_r].
  - unfold add_doi at 2.
    destruct (contains (group 0 m) (str_of_list acc)).
    + destruct (IH acc) as [kept [Hk ->]]. exists kept.
      split; [now constructor|reflexivity].
    + destruct (IH (acc ++ [u "DOI: " ++ group 0 m])) as [kept [Hk ->]].
      exists (m :: kept). split; [now constructor|]. now rewrite <- app_assoc.
Qed.

Lemma fold_add_arxiv (ms : list (list str)) (acc : list str) :
  exists kept, kept_from kept ms
               /\ fold_left add_arxiv ms acc = acc ++ map arxiv_entry kept.
Proof.
  revert acc. induction ms as [|m ms IH]; intros acc; cbn.
  - exists []. split; [constructor|now rewrite app_nil_r].
  - unfold add_arxiv at 2.
    destruct (contains (group 0 m) (str_of_list acc)).
    + destruct (IH acc) as [kept [Hk ->]]. exists kept.
      split; [now constructor|reflexivity].
    + destruct (IH (acc ++ [group 0 m])) as [kept [Hk ->]].
      exists (m :: kept). split; [now constructor|]. now rewrite <- app_assoc.
Qed.


Lemma cited_cons : CITED = 83%N :: tl CITED.
Proof. vm_compute. reflexivity. Qed.

Lemma cited_facts :
  length CITED = 37 /\ forallb not_bracket CITED = true
  /\ rstrip_by is_space CITED = CITED /\ is_space 83 = false.
Proof. repeat split; vm_compute; reflexivity. Qed.

Lemma citation_split :
  CITATION = u "[" ++ u "12" ++ u "]" ++ u " " ++ CITED.
Proof. vm_compute. reflexivity. Qed.

Lemma doi_split : DOI = u "10." ++ u "1000" ++ u "/" ++ u "xyz123".
Proof. vm_compute. reflexivity. Qed.

Lemma first_bracket_re (c : char) : first bracket_re c = (91 =? c)%N.
Proof.
  unfold bracket_re.
  assert (E : u "[" = [91]%N) by (vm_compute; reflexivity). rewrite E.
  cbn [lit fold_right first nullable andb]. now rewrite !orb_false_r.
Qed.

Lemma first_doi_re (c : char) : first doi_re c = (49 =? c)%N.
Proof.
  unfold doi_re.
  assert (E : u "10." = [49; 48; 46]%N) by (vm_compute; reflexivity). rewrite E.
  cbn [lit fold_right first nullable andb]. now rewrite !orb_false_r.
Qed.

Lemma nullable_patterns : nullable bracket_re = false /\ nullable doi_re = false.
Proof. split; vm_compute; reflexivity. Qed.

Lemma strip_cited (w : str) :
  forallb is_space w = true -> strip (CITED ++ w) = CITED.
Proof.
  intros Hw. unfold strip.
  assert (Hl : lstrip_by is_space (CITED ++ w) = CITED ++ w).
  { rewrite cited_cons, <- app_comm_cons.
    apply lstrip_by_cons_false, cited_facts. }
  rewrite Hl, rstrip_by_app_all by assumption. apply cited_facts.
Qed.

(** The bracketed-citation pattern on the sample citation followed by white
    space and then the end of the text or a bracket *)
Lemma bracket_match_citation (ws post : str) :
  forallb is_space ws = true ->
  stops not_bracket post = true ->
  exists w t rest,
    forallb is_space w = true
    /\ re_match bracket_re (CITATION ++ ws ++ post)
       = Some (t, rest, [u "12"; CITED ++ w]).
Proof.
  intros Hws Hpost.
  remember (span not_bracket (Some 163) (ws ++ post)) as j eqn:Ej.
  assert (Hj : j <= length ws) by (subst j; apply span_stops, Hpost).
  destruct cited_facts as (Hlen & Hnb & _ & _).
  exists (firstn j ws). do 2 eexists.
  split; [now apply forallb_firstn|].
  rewrite citation_split, <- !app_assoc.
  unfold re_match, bracket_re. cbn [run].
  rewrite run_lit_app.
  apply rep_first; [vm_compute; reflexivity|vm_compute; reflexivity|cbn; lia|].
  rewrite run_lit_app.
  apply rep_first; [vm_compute; reflexivity| |cbn; lia|].
  { rewrite cited_cons, <- app_comm_cons. cbn [stops].
    destruct cited_facts as (_ & _ & _ & ->). reflexivity. }
  rewrite rep_total by discriminate. cbn [option_map].
  rewrite Nat.sub_0_r, Nat.add_0_l.
  rewrite (span_app_all not_bracket CITED (ws ++ post) (limit := 200))
    by (rewrite ?Hlen; auto; lia).
  rewrite Hlen. change (200 - 37) with 163. rewrite <- Ej.
  replace (10 <=? 37 + j) with true by (symmetry; apply Nat.leb_le; lia).
  replace (firstn (37 + j) (CITED ++ ws ++ post)) with (CITED ++ firstn j ws);
    [reflexivity|].
  rewrite firstn_app, Hlen.
  replace (37 + j - 37) with j by lia.
  rewrite (@firstn_all2 _ (37 + j) CITED) by (rewrite Hlen; lia).
  rewrite firstn_app. replace (j - length ws) with 0 by lia.
  cbn [firstn]. now rewrite app_nil_r.
Qed.

Lemma doi_match_sample (post : str) :
  stops not_space post = true ->
  exists t rest, re_match doi_re (DOI ++ post) = Some (t, rest, [DOI]).
Proof.
  intros Hpost. do 2 eexists.
  rewrite doi_split at 1. rewrite <- !app_assoc.
  unfold re_match, doi_re. cbn [run].
  rewrite run_lit_app.
  apply rep_first; [vm_compute; reflexivity|vm_compute; reflexivity|cbn; lia|].
  rewrite run_lit_app.
  apply rep_first; [vm_compute; reflexivity|exact Hpost|cbn; lia|].
  rewrite doi_split. reflexivity.
Qed.

Lemma add_doi_sample : add_doi [] [DOI] = [u "DOI: " ++ DOI].
Proof. vm_compute. reflexivity. Qed.

Lemma sample_nonempty (s : str) : CITATION ++ s <> [] /\ DOI ++ s <> [].
Proof.
  assert (Hc : CITATION = 91%N :: tl CITATION) by (vm_compute; reflexivity).
  assert (Hd : DOI = 49%N :: tl DOI) by (vm_compute; reflexivity).
  rewrite Hc, Hd. split; discriminate.
Qed.

Lemma findall_from_match (r : regex) (s t rest : str) (caps : list str) :
  s <> [] ->
  re_match r s = Some (t, rest, caps) ->
  exists more, findall_from r s 0 = caps :: more.
Proof.
  intros Hs Hm. destruct s as [|c s]; [congruence|].
  cbn. rewrite Hm. eauto.
Qed.

Lemma hd_error_firstn_cons {A} (x : A) (l : list A) (n : nat) :
  hd_error (firstn (S n) (x :: l)) = Some x.
Proof. reflexivity. Qed.


End ReferenceFacts.
(** ** The two readers *)

Section ReaderFacts.
Context {P : Platform} {W : World}.

Lemma page_texts_ok (texts : list str) (n : nat) :
  page_texts (map Ok texts) n = Ok (visible_pages n texts).
Proof.
  revert n. induction texts as [|t texts IH]; intros n; cbn; [reflexivity|].
  rewrite IH. cbn. rewrite truthy_strip. unfold page_entry.
  now destruct (has_text t).
Qed.

Lemma page_texts_inv (pages : list (result str)) (n : nat) (full : list str) :
  page_texts pages n = Ok full ->
  exists texts, pages = map Ok texts /\ full = visible_pages n texts.
Proof.
  revert n full. induction pages as [|p pages IH]; intros n full; cbn.
  - intros [= <-]. now exists [].
  - destruct p as [t|e]; cbn; [|discriminate].
    destruct (page_texts pages (S n)) as [full'|e] eqn:E; cbn; [|discriminate].
    destruct (IH _ _ E) as [texts [-> ->]]. intros [= <-].
    exists (t :: texts). split; [reflexivity|]. cbn.
    rewrite truthy_strip. unfold page_entry. now destruct (has_text t).
Qed.

(** A PDF read whose download, opening and page texts all succeed *)
Lemma read_pdf_ok (the_url : str) (b : bytes) (doc : Document)
  (texts : list str) :
  http_get_bytes the_url = Ok b ->
  pymupdf_open b = Ok doc ->
  doc_pages doc = map Ok texts ->
  _read_pdf the_url = Ok (pdf_success the_url (doc_metadata doc) texts).
Proof.
  intros Hb Hd Hp. unfold _read_pdf, parse_pdf. rewrite Hb. cbn.
  rewrite Hd. cbn. rewrite Hp, page_texts_ok. reflexivity.
Qed.

Lemma read_pdf_cases (the_url : str) :
  (exists m, _read_pdf the_url
             = Ok (error_result the_url (u "PDF 读取失败: " ++ m)))
  \/ (exists b doc texts,
        http_get_bytes the_url = Ok b /\ pymupdf_open b = Ok doc
        /\ doc_pages doc = map Ok texts
        /\ _read_pdf the_url = Ok (pdf_success the_url (doc_metadata doc) texts))
  \/ (exists cls m, _read_pdf the_url = Raise (BaseException cls m)).
Proof.
  unfold _read_pdf, parse_pdf.
  destruct (http_get_bytes the_url) as [b|[c m|c m]] eqn:Hb; cbn;
    [|left; eauto|right; right; eauto].
  destruct (pymupdf_open b) as [doc|[c m|c m]] eqn:Hd; cbn;
    [|left; eauto|right; right; eauto].
  destruct (page_texts (doc_pages doc) 0) as [full|[c m|c m]] eqn:Hp; cbn;
    [|left; eauto|right; right; eauto].
  right; left. destruct (page_texts_inv _ _ Hp) as [texts [Ht ->]].
  exists b, doc, texts. repeat split; assumption.
Qed.

(** An HTML read whose fetch and two passes succeed *)
Lemma read_html_ok (the_url : str) (use_playwright : bool)
  (html_content : str) (metadata : option Metadata) (text_content : option str) :
  (if use_playwright then _fetch_html_with_playwright the_url
   else http_get_text the_url) = Ok html_content ->
  extract_metadata html_content = Ok metadata ->
  trafilatura_extract html_content = Ok text_content ->
  _read_html the_url use_playwright
  = Ok match text_content with
       | Some (c :: t) => html_success the_url metadata (c :: t)
       | _ => error_result the_url MSG_NO_CONTENT
       end.
Proof.
  intros Hf Hm Ht. unfold _read_html. rewrite Hf. cbn. rewrite Hm. cbn.
  rewrite Ht. cbn. now destruct text_content as [[|c t]|].
Qed.

Lemma read_html_cases (the_url : str) (use_playwright : bool) :
  (exists m, _read_html the_url use_playwright
             = Ok (error_result the_url (u "HTML 读取失败: " ++ m)))
  \/ _read_html the_url use_playwright = Ok (error_result the_url MSG_NO_CONTENT)
  \/ (exists metadata c t,
        _read_html the_url use_playwright
        = Ok (html_success the_url metadata (c :: t)))
  \/ (exists cls m, _read_html the_url use_playwright = Raise (BaseException cls m)).
Proof.
  destruct (if use_playwright then _fetch_html_with_playwright the_url
            else http_get_text the_url) as [h|[c m|c m]] eqn:Hf;
    [|left; exists m; unfold _read_html; now rewrite Hf
     |do 3 right; exists c, m; unfold _read_html; now rewrite Hf].
  destruct (extract_metadata h) as [md|[c m|c m]] eqn:Hm;
    [|left; exists m; unfold _read_html; rewrite Hf; cbn; now rewrite Hm
     |do 3 right; exists c, m; unfold _read_html; rewrite Hf; cbn; now rewrite Hm].
  destruct (trafilatura_extract h) as [text|[c m|c m]] eqn:Ht;
    [|left; exists m; unfold _read_html; rewrite Hf; cbn; rewrite Hm; cbn;
      now rewrite Ht
     |do 3 right; exists c, m; unfold _read_html; rewrite Hf; cbn; rewrite Hm;
      cbn; now rewrite Ht].
  rewrite (read_html_ok _ _ Hf Hm Ht).
  destruct text as [[|c t]|]; [right; left; reflexivity| |right; left; reflexivity].
  right; right; left. eauto.
Qed.

Lemma pdf_success_content_nil_iff (the_url : str) (metadata : list (str * str))
  (texts : list str) :
  content (pdf_success the_url metadata texts) = []
  <-> existsb has_text texts = false.
Proof.
  cbn. unfold re_sub. rewrite sub_from_nil_iff by discriminate.
  rewrite join_nil_iff by (intros x; apply visible_pages_nonempty).
  apply visible_pages_nil_iff.
Qed.

(** Every result of a reader with an error has the shape of
    [ReadResult(content="", url=url, error=...)] with a non-empty message. *)
Lemma smart_read_error_shape (the_url : str) (use_playwright : bool)
  (r : ReadResult) :
  smart_read the_url use_playwright = Ok r ->
  error r <> None ->
  exists msg, msg <> [] /\ r = error_result the_url msg.
Proof.
  unfold smart_read. destruct (_is_pdf_url the_url) as [[|]|e]; cbn;
    [| |discriminate].
  - destruct (read_pdf_cases the_url)
      as [[m He]|[(b & doc & texts & _ & _ & _ & He)|(c & m & He)]];
      rewrite He; [| |discriminate].
    + intros [= <-] _. eexists; split; [|reflexivity]. discriminate.
    + intros [= <-] Herr. now contradiction Herr.
  - destruct (read_html_cases the_url use_playwright)
      as [[m He]|[He|[(md & c & t & He)|(c & m & He)]]];
      rewrite He; [| | |discriminate].
    + intros [= <-] _. eexists; split; [|reflexivity]. discriminate.
    + intros [= <-] _. eexists; split; [|reflexivity]. vm_compute; discriminate.
    + intros [= <-] Herr. now contradiction Herr.
Qed.

End ReaderFacts.
(** ** The entry point [smart_read] *)

Section SmartRead.
Context {P : Platform} {W : World}.

(** C1 (the code departs from the claim): on the URL [http://[] the
    classifier's call of [urlparse] raises [ValueError], the call sits
    outside the [try] blocks of the two readers, and so the exception leaves
    [smart_read] and [smart_read_to_markdown], whatever the rendering flag
    and whatever the world answers. *)
Theorem smart_read_unbalanced_bracket_raises (use_playwright : bool) :
  smart_read (u "http://[") use_playwright
  = Raise (ValueError (u "Invalid IPv6 URL"))
  /\ smart_read_to_markdown (u "http://[") use_playwright
     = Raise (ValueError (u "Invalid IPv6 URL")).
Proof. split; reflexivity. Qed.

(** What [smart_read] returns on the PDF path when the download, the opening
    and every page succeed *)
Lemma smart_read_pdf_ok (the_url : str) (use_playwright : bool) (b : bytes)
  (doc : Document) (texts : list str) :
  _is_pdf_url the_url = Ok true ->
  http_get_bytes the_url = Ok b ->
  pymupdf_open b = Ok doc ->
  doc_pages doc = map Ok texts ->
  smart_read the_url use_playwright
  = Ok (pdf_success the_url (doc_metadata doc) texts).
Proof.
  intros Hc Hb Hd Hp. unfold smart_read. rewrite Hc. cbn.
  now apply read_pdf_ok with (b := b).
Qed.

(** C2 (amended): in every result [smart_read] returns, a set error comes
    with empty content; on the HTML path exactly one of the two holds: the
    error is set, or the content is non-empty.  On the PDF path a result
    without error comes from a document whose pages were all read, and its
    content is empty exactly when none of these pages has a character that
    is not white space; and whenever the download, the opening and the page
    texts succeed, such a result is returned. *)
Theorem error_excludes_content (the_url : str) (use_playwright : bool) :
  (forall r : ReadResult,
     smart_read the_url use_playwright = Ok r ->
     (error r <> None -> content r = [])
     /\ (_is_pdf_url the_url = Ok false ->
         (error r = None <-> content r <> []))
     /\ (_is_pdf_url the_url = Ok true -> error r = None ->
         exists b doc texts,
           http_get_bytes the_url = Ok b /\ pymupdf_open b = Ok doc
           /\ doc_pages doc = map Ok texts
           /\ (content r = [] <-> existsb has_text texts = false)))
  /\ (forall b doc texts,
        _is_pdf_url the_url = Ok true ->
        http_get_bytes the_url = Ok b ->
        pymupdf_open b = Ok doc ->
        doc_pages doc = map Ok texts ->
        exists r,
          smart_read the_url use_playwright = Ok r /\ error r = None
          /\ (content r = [] <-> existsb has_text texts = false)).
Proof.
  split.
  - intros r Hr. split; [|split].
    + intros Herr.
      destruct (smart_read_error_shape _ _ Hr Herr) as [msg [_ ->]].
      reflexivity.
    + intros Hhtml. revert Hr. unfold smart_read. rewrite Hhtml. cbn.
      destruct (read_html_cases the_url use_playwright)
        as [[m He]|[He|[(md & c & t & He)|(c & m & He)]]];
        rewrite He; [| | |discriminate]; intros [= <-]; cbn.
      * split; [discriminate|]. intros H; now contradiction H.
      * split; [discriminate|]. intros H; now contradiction H.
      * split; [discriminate|reflexivity].
    + intros Hpdf Hnone. revert Hr. unfold smart_read. rewrite Hpdf. cbn.
      destruct (read_pdf_cases the_url)
        as [[m He]|[(b & doc & texts & Hb & Hd & Hp & He)|(c & m & He)]];
        rewrite He; [| |discriminate]; intros [= <-]; [discriminate|].
      exists b, doc, texts. repeat split; try assumption;
        apply pdf_success_content_nil_iff.
  - intros b doc texts Hc Hb Hd Hp.
    exists (pdf_success the_url (doc_metadata doc) texts).
    split; [now apply smart_read_pdf_ok with (b := b)|].
    split; [reflexivity|apply pdf_success_content_nil_iff].
Qed.

(** C4 (amended): when the page was fetched and both passes returned,
    [smart_read] on the HTML path returns a result; if the content pass
    returned [None] or the empty string, the result carries the
    no-extractable-content message as its error and the empty string as its
    content; if it returned any non-empty text, also one made only of white
    space, the result has no error and that text as its content. *)
Theorem empty_extraction_is_error (the_url : str) (use_playwright : bool)
  (html_content : str) (metadata : option Metadata) (text_content : option str) :
  _is_pdf_url the_url = Ok false ->
  (if use_playwright then _fetch_html_with_playwright the_url
   else http_get_text the_url) = Ok html_content ->
  extract_metadata html_content = Ok metadata ->
  trafilatura_extract html_content = Ok text_content ->
  exists r,
    smart_read the_url use_playwright = Ok r
    /\ (text_content = None \/ text_content = Some [] ->
        error r = Some MSG_NO_CONTENT /\ MSG_NO_CONTENT <> []
        /\ content r = [])
    /\ (forall c t, text_content = Some (c :: t) ->
        error r = None /\ content r = c :: t).
Proof.
  intros Hhtml Hfetch Hmd Htext.
  eexists. split.
  - unfold smart_read. rewrite Hhtml. cbn.
    exact (read_html_ok _ _ Hfetch Hmd Htext).
  - split.
    + intros [-> | ->]; cbn; repeat split; vm_compute; discriminate.
    + intros c t ->. cbn. split; reflexivity.
Qed.

(** C8 (amended): the content type of a returned result is [pdf] exactly
    when the classifier chose the PDF path and the result has no error; a
    result of the HTML path, and every result with an error, has [html]. *)
Theorem content_type_of_result (the_url : str) (use_playwright : bool)
  (r : ReadResult) :
  smart_read the_url use_playwright = Ok r ->
  content_type r
  = match error r, _is_pdf_url the_url with
    | None, Ok true => pdf
    | _, _ => html
    end.
Proof.
  unfold smart_read. destruct (_is_pdf_url the_url) as [[|]|e]; cbn;
    [| |discriminate].
  - destruct (read_pdf_cases the_url)
      as [[m He]|[(b & doc & texts & _ & _ & _ & He)|(c & m & He)]];
      rewrite He; [| |discriminate]; intros [= <-]; reflexivity.
  - destruct (read_html_cases the_url use_playwright)
      as [[m He]|[He|[(md & c & t & He)|(c & m & He)]]];
      rewrite He; [| | |discriminate]; intros [= <-]; reflexivity.
Qed.


End SmartRead.

(** ** The creation date of a PDF *)

Section CreationDate.
Context {P : Platform} {W : World}.


End CreationDate.

(** ** Closed instances *)

(** C2, concrete instances of [error_excludes_content]: a failed HTML read
    in the offline world, and a PDF with one page of text. *)
Lemma error_excludes_content_witness :
  (let r := error_result (u "https://example.com/article")
              (u "HTML 读取失败: Cannot connect to host") in
   (error r <> None -> content r = [])
   /\ (@_is_pdf_url ascii_platform (u "https://example.com/article") = Ok false ->
       (error r = None <-> content r <> []))
   /\ (@_is_pdf_url ascii_platform (u "https://example.com/article") = Ok true ->
       error r = None ->
       exists b doc texts,
         @http_get_bytes offline (u "https://example.com/article") = Ok b
         /\ @pymupdf_open offline b = Ok doc
         /\ doc_pages doc = map Ok texts
         /\ (content r = [] <-> existsb has_text texts = false)))
  /\ (exists r,
        @smart_read ascii_platform (serving None [u "Hello"])
          (u "https://example.com/paper.pdf") true = Ok r
        /\ error r = None
        /\ (content r = [] <-> existsb has_text [u "Hello"] = false)).
Proof.
  split.
  - apply (proj1 (@error_excludes_content ascii_platform offline
                    (u "https://example.com/article") true)).
    vm_compute. reflexivity.
  - apply (proj2 (@error_excludes_content ascii_platform
                    (serving None [u "Hello"])
                    (u "https://example.com/paper.pdf") true)
             []
             {| doc_metadata := [(u "creationDate", u "D:20230615120000")];
                doc_pages := map Ok [u "Hello"] |});
      vm_compute; reflexivity.
Defined.

(** C2, the claim fails: a PDF whose two pages hold only white space comes
    back with no error and with empty content. *)
Lemma blank_pdf_no_error_no_content :
  @smart_read ascii_platform (serving None [u " "; [LF]])
    (u "https://example.com/scan.pdf") true
  = Ok {| content := []; title := None; author := None;
          publish_date := Some (u "2023-06-15");
          url := Some (u "https://example.com/scan.pdf");
          content_type := pdf; references := []; error := None |}.
Proof. vm_compute. reflexivity. Qed.

(** C4, a concrete instance of [empty_extraction_is_error]: the content
    pass returns [None]. *)
Lemma empty_extraction_is_error_witness :
  exists r,
    @smart_read ascii_platform (serving None [])
      (u "https://example.com/article") true = Ok r
    /\ (@None str = None \/ @None str = Some [] ->
        error r = Some MSG_NO_CONTENT /\ MSG_NO_CONTENT <> []
        /\ content r = [])
    /\ (forall c t, None = Some (c :: t) ->
        error r = None /\ content r = c :: t).
Proof.
  apply (@empty_extraction_is_error ascii_platform (serving None [])
           (u "https://example.com/article") true (u "<html></html>")
           None None); vm_compute; reflexivity.
Defined.

(** C4, the claim fails: a content pass that returns one space is returned
    as a success whose content is that space. *)
Lemma whitespace_extraction_is_success :
  @smart_read ascii_platform (serving (Some (u " ")) [])
    (u "https://example.com/article") true
  = Ok {| content := u " "; title := None; author := None;
          publish_date := None;
          url := Some (u "https://example.com/article");
          content_type := html; references := []; error := None |}.
Proof. vm_compute. reflexivity. Qed.

(** C8, a concrete instance of [content_type_of_result]: a PDF that is read. *)
Lemma content_type_of_result_witness :
  let r := {| content := u "## 第 1 页" ++ [LF; LF] ++ u "Hello";
              title := None; author := None;
              publish_date := Some (u "2023-06-15");
              url := Some (u "https://example.com/paper.pdf");
              content_type := pdf; references := []; error := None |} in
  content_type r
  = match error r, @_is_pdf_url ascii_platform (u "https://example.com/paper.pdf")
    with
    | None, Ok true => pdf
    | _, _ => html
    end.
Proof.
  cbv zeta.
  apply (@content_type_of_result ascii_platform (serving None [u "Hello"])
           (u "https://example.com/paper.pdf") true).
  vm_compute. reflexivity.
Defined.

(** C8, the claim fails: the classifier chooses the PDF path, the download
    fails, and the result that reports the failure has content type [html]. *)
Lemma pdf_failure_has_type_html :
  @_is_pdf_url ascii_platform (u "https://example.com/paper.pdf") = Ok true
  /\ @smart_read ascii_platform offline (u "https://example.com/paper.pdf") true
     = Ok {| content := []; title := None; author := None;
             publish_date := None;
             url := Some (u "https://example.com/paper.pdf");
             content_type := html; references := [];
             error := Some (u "PDF 读取失败: Cannot connect to host") |}.
Proof. split; vm_compute; reflexivity. Qed.






(** ** The formatter *)

Ltac norm_app :=
  repeat (rewrite <- ?app_assoc; cbn [app]); rewrite ?app_nil_r.

Lemma contains_app (p a b : str) : contains p (a ++ p ++ b) = true.
Proof.
  induction a as [|c a IH].
  - cbn [app]. destruct (p ++ b) eqn:E; cbn [contains];
      rewrite <- ?E, startswith_app; reflexivity.
  - cbn [app contains]. rewrite IH. apply orb_true_r.
Qed.

Lemma contains_app_r (p a b : str) :
  contains p b = true -> contains p (a ++ b) = true.
Proof.
  intros H. induction a as [|c a IH]; [exact H|].
  cbn [app contains]. rewrite IH. apply orb_true_r.
Qed.

Lemma contains_prefix (p b : str) : contains p (p ++ b) = true.
Proof. exact (contains_app p [] b). Qed.

Lemma contains_self (p : str) : contains p p = true.
Proof. rewrite <- (app_nil_r p) at 2. apply contains_prefix. Qed.

Lemma join_cons (sep x : str) (l : list str) :
  join sep (x :: l) = x ++ flat_map (fun y => sep ++ y) l.
Proof.
  revert x. induction l as [|y l IH]; intros x.
  - cbn. now rewrite app_nil_r.
  - change (join sep (x :: y :: l)) with (x ++ sep ++ join sep (y :: l)).
    rewrite IH. cbn [flat_map]. now rewrite <- app_assoc.
Qed.

Lemma flat_map_map {A B C} (f : A -> B) (g : B -> list C) (l : list A) :
  flat_map g (map f l) = flat_map (fun x => g (f x)) l.
Proof. induction l as [|a l IH]; cbn; [reflexivity|now rewrite IH]. Qed.

Lemma truthy_opt_cases (o : option str) :
  (truthy_opt o = true /\ exists c t, o = Some (c :: t))
  \/ (truthy_opt o = false /\ (o = None \/ o = Some [])).
Proof. destruct o as [[|c t]|]; cbn; eauto 6. Qed.

Lemma upper_content_type (ct : ContentType) :
  upper (content_type_str ct)
  = match ct with html => u "HTML" | pdf => u "PDF" end.
Proof. destruct ct; vm_compute; reflexivity. Qed.

Section Formatter.

Lemma output_parts_eq (the_url : str) (r : ReadResult) :
  output_parts the_url r
  = [title_line r; metadata_block the_url r; u "---"; content r]
    ++ match references r with
       | [] => []
       | refs =>
           ([LF] ++ u "---" ++ [LF] ++ u "## 参考文献" ++ [LF])
           :: map (fun ref => u "- " ++ ref) refs
       end.
Proof.
  unfold output_parts, title_line, metadata_block.
  rewrite upper_content_type. cbv zeta.
  destruct (title r) as [[|c0 t0]|]; destruct (author r) as [[|c1 t1]|];
    destruct (publish_date r) as [[|c2 t2]|]; destruct (references r);
    cbn [truthy_opt truthy app join]; norm_app; reflexivity.
Qed.


End Formatter.

(** ** The classifier *)

Lemma endswith_app (p a : str) : endswith p (a ++ p) = true.
Proof.
  unfold endswith. rewrite length_app.
  replace (length a + length p - length p) with (length a) by lia.
  rewrite (skipn_len a p eq_refl).
  replace (length p <=? length a + length p) with true
    by (symmetry; apply Nat.leb_le; lia).
  unfold str_eqb. now destruct (list_eq_dec N.eq_dec p p).
Qed.

Section Classifier.
Context {P : Platform}.

Lemma lower_from_ascii (mid post before : str) :
  forallb is_ascii mid = true ->
  lower_from before (mid ++ post)
  = map ascii_lower mid ++ lower_from (before ++ mid) post.
Proof.
  revert before. induction mid as [|c mid IH]; intros before Hm.
  - cbn. now rewrite app_nil_r.
  - cbn in Hm. apply andb_prop in Hm as [Hc Hm].
    cbn [app lower_from map]. rewrite Hc, (IH _ Hm), <- app_assoc.
    reflexivity.
Qed.

(** Lower-casing keeps an ASCII stretch of the text in place, lower-cased. *)
Lemma lower_from_keeps (pre mid post before : str) :
  forallb is_ascii mid = true ->
  exists x,
    lower_from before (pre ++ mid ++ post)
    = x ++ map ascii_lower mid ++ lower_from (before ++ pre ++ mid) post.
Proof.
  revert before. induction pre as [|c pre IH]; intros before Hm.
  - exists []. cbn [app]. now apply lower_from_ascii.
  - destruct (IH (before ++ [c]) Hm) as [x Hx].
    exists ((if is_ascii c then [ascii_lower c]
             else uni_lower before c (pre ++ mid ++ post)) ++ x).
    cbn [app lower_from]. rewrite Hx, <- !app_assoc. reflexivity.
Qed.

Lemma pdf_patterns_eq :
  pdf_patterns
  = [u "/pdf/"; u "/download/pdf"; u "arxiv.org/pdf"; u "export=download"].
Proof. reflexivity. Qed.

Lemma is_pdf_url_eq (the_url : str) (parsed : ParseResult) :
  urlparse the_url = Ok parsed ->
  _is_pdf_url the_url
  = Ok (endswith (u ".pdf") (lower (path parsed))
        || existsb (fun pattern => contains pattern (lower the_url))
             pdf_patterns).
Proof.
  intros Hp. unfold _is_pdf_url. rewrite Hp. cbn [bind].
  now destruct (endswith (u ".pdf") (lower (path parsed))).
Qed.


End Classifier.


